(** * SolarScan: the home page submission handler and the analysis pipeline

    The repository ships one executable unit, the home page of the Next.js
    front end ([frontend/src/app/page.tsx]), and the documentation of the
    HTTP interface of the back end (the project README).  The first part of
    this development embeds [handleSubmit] together with the JavaScript
    library behaviour it relies on; the second part models the analysis
    pipeline, whose implementation is not part of the repository. *)

From Stdlib Require Import ZArith NArith QArith Qround Qminmax Qabs Lia Lqa Ascii String.
From stdpp Require Import base option list strings gmap pretty.

Set Warnings "-register-all".

Open Scope N_scope.

(** ** JavaScript strings and values *)

Module JS.

(** A JavaScript string is a sequence of 16-bit code units. *)
Definition jsstring := list N.

(** Source literals are written in UTF-8; the engine holds them as UTF-16. *)
Fixpoint utf16_of_utf8 (bs : list N) : jsstring :=
  match bs with
  | [] => []
  | b0 :: r0 =>
    if b0 <? 0x80 then b0 :: utf16_of_utf8 r0
    else match r0 with
    | [] => [0xFFFD]
    | b1 :: r1 =>
      if b0 <? 0xE0
      then N.lor (N.shiftl (N.land b0 0x1F) 6) (N.land b1 0x3F)
           :: utf16_of_utf8 r1
      else match r1 with
      | [] => [0xFFFD]
      | b2 :: r2 =>
        if b0 <? 0xF0
        then N.lor (N.shiftl (N.land b0 0x0F) 12)
               (N.lor (N.shiftl (N.land b1 0x3F) 6) (N.land b2 0x3F))
             :: utf16_of_utf8 r2
        else match r2 with
        | [] => [0xFFFD]
        | b3 :: r3 =>
          let cp := N.lor (N.shiftl (N.land b0 0x07) 18)
                      (N.lor (N.shiftl (N.land b1 0x3F) 12)
                         (N.lor (N.shiftl (N.land b2 0x3F) 6)
                            (N.land b3 0x3F))) in
          let v := cp - 0x10000 in
          (0xD800 + N.shiftr v 10) :: (0xDC00 + N.land v 0x3FF)
          :: utf16_of_utf8 r3
        end
      end
    end
  end.

Definition lit (s : string) : jsstring :=
  utf16_of_utf8 (N_of_ascii <$> list_ascii_of_string s).

(** WhiteSpace and LineTerminator code units, the ones
    [String.prototype.trim] strips. *)
Definition is_white_space (c : N) : bool :=
  (c =? 0x0009) || (c =? 0x000A) || (c =? 0x000B) || (c =? 0x000C)
  || (c =? 0x000D) || (c =? 0x0020) || (c =? 0x00A0) || (c =? 0x1680)
  || ((0x2000 <=? c) && (c <=? 0x200A))
  || (c =? 0x2028) || (c =? 0x2029) || (c =? 0x202F) || (c =? 0x205F)
  || (c =? 0x3000) || (c =? 0xFEFF).

Fixpoint trimStart (s : jsstring) : jsstring :=
  match s with
  | [] => []
  | c :: r => if is_white_space c then trimStart r else s
  end.

Definition trimEnd (s : jsstring) : jsstring :=
  reverse (trimStart (reverse s)).

Definition trim (s : jsstring) : jsstring := trimEnd (trimStart s).

(** ToBoolean on a string: only the empty string is falsy. *)
Definition truthy (s : jsstring) : bool :=
  match s with [] => false | _ :: _ => true end.

(** The values [response.json()] can resolve to.  A number is carried by
    its ToString rendering; its floating-point value is not modelled. *)
Inductive jsval :=
| JUndefined
| JNull
| JBool (b : bool)
| JNum (rendering : jsstring)
| JStr (s : jsstring)
| JArr (items : list jsval)
| JObj (fields : list (jsstring * jsval)).

Definition jsstring_eqb (a b : jsstring) : bool := bool_decide (a = b).

Fixpoint own_property (fields : list (jsstring * jsval)) (key : jsstring)
  : jsval :=
  match fields with
  | [] => JUndefined
  | (k, v) :: rest => if jsstring_eqb k key then v else own_property rest key
  end.

Fixpoint join (sep : jsstring) (parts : list jsstring) : jsstring :=
  match parts with
  | [] => []
  | [p] => p
  | p :: rest => p ++ sep ++ join sep rest
  end.

(** ToString, as applied to a substitution of a template literal. *)
Fixpoint ToString (v : jsval) : jsstring :=
  match v with
  | JUndefined => lit "undefined"
  | JNull => lit "null"
  | JBool true => lit "true"
  | JBool false => lit "false"
  | JNum r => r
  | JStr s => s
  | JArr items =>
    join (lit ",")
      ((fix each (l : list jsval) : list jsstring :=
          match l with
          | [] => []
          | JUndefined :: r => [] :: each r
          | JNull :: r => [] :: each r
          | x :: r => ToString x :: each r
          end) items)
  | JObj _ => lit "[object Object]"
  end.

Definition hex_digit (d : N) : N :=
  if d <? 10 then 0x30 + d else 0x61 + (d - 10).

(** UnicodeEscape: a backslash, the letter u and four lower-case hex digits. *)
Definition UnicodeEscape (c : N) : jsstring :=
  [0x5C; 0x75; hex_digit (N.shiftr c 12 mod 16); hex_digit (N.shiftr c 8 mod 16);
   hex_digit (N.shiftr c 4 mod 16); hex_digit (c mod 16)].

Definition is_lead (c : N) : bool := (0xD800 <=? c) && (c <=? 0xDBFF).
Definition is_trail (c : N) : bool := (0xDC00 <=? c) && (c <=? 0xDFFF).

Fixpoint quote_units (s : jsstring) : jsstring :=
  match s with
  | [] => []
  | c :: r =>
    if c =? 0x08 then [0x5C; 0x62] ++ quote_units r
    else if c =? 0x09 then [0x5C; 0x74] ++ quote_units r
    else if c =? 0x0A then [0x5C; 0x6E] ++ quote_units r
    else if c =? 0x0C then [0x5C; 0x66] ++ quote_units r
    else if c =? 0x0D then [0x5C; 0x72] ++ quote_units r
    else if c =? 0x22 then [0x5C; 0x22] ++ quote_units r
    else if c =? 0x5C then [0x5C; 0x5C] ++ quote_units r
    else if c <? 0x20 then UnicodeEscape c ++ quote_units r
    else if is_lead c then
      match r with
      | d :: r' =>
        if is_trail d then c :: d :: quote_units r'
        else UnicodeEscape c ++ quote_units r
      | [] => UnicodeEscape c
      end
    else if is_trail c then UnicodeEscape c ++ quote_units r
    else c :: quote_units r
  end.

(** QuoteJSONString. *)
Definition QuoteJSONString (s : jsstring) : jsstring :=
  [0x22] ++ quote_units s ++ [0x22].

(** [JSON.stringify] of a plain object whose properties all hold strings,
    the only shape the page serialises. *)
Definition JSON_stringify (props : list (jsstring * jsstring)) : jsstring :=
  [0x7B]
  ++ join [0x2C]
       ((fun kv => QuoteJSONString kv.1 ++ [0x3A] ++ QuoteJSONString kv.2)
          <$> props)
  ++ [0x7D].

End JS.

(** ** The home page: [frontend/src/app/page.tsx] *)

Module HomePage.
Import JS.

(** The second argument of [fetch]. *)
Record RequestInit := {
  method : jsstring;
  headers : list (jsstring * jsstring);
  body : jsstring
}.

(** What the page reads of a [Response]: the [ok] flag and the value that
    [response.json()] resolves to ([None] when it rejects, the body not
    being JSON). *)
Record Response := {
  ok : bool;
  json : option jsval
}.

Inductive fetch_result :=
| Rejected
| Resolved (r : Response).

(** The network as the handler meets it: what a call of [fetch] settles to. *)
Definition network := jsstring → RequestInit → fetch_result.

(** Values that can be thrown inside the [try] block. *)
Inductive js_error :=
| FetchFailed
| ErrorObject (message : jsstring)
| BodySyntaxError
| NullishPropertyRead.

(** Observable effects, in program order. *)
Inductive event :=
| EvPreventDefault
| EvAlert (message : jsstring)
| EvSetLoading (value : bool)
| EvFetch (url : jsstring) (init : RequestInit)
| EvConsoleError (label : jsstring) (error : js_error)
| EvRouterPush (href : jsstring).

(** The state of the component ([useState('')], [useState(false)]) and the
    effects performed so far. *)
Record world := {
  address : jsstring;
  loading : bool;
  log : list event
}.

Inductive completion (A : Type) :=
| Normal (a : A)
| Throw (e : js_error).
Arguments Normal {A} a.
Arguments Throw {A} e.

Definition Eff (A : Type) : Type := world → completion A * world.

#[export] Instance Eff_ret : MRet Eff := λ A a w, (Normal a, w).

#[export] Instance Eff_bind : MBind Eff := λ A B f m w,
  match m w with
  | (Normal a, w') => f a w'
  | (Throw e, w') => (Throw e, w')
  end.

Definition emit (ev : event) : Eff unit := λ w,
  (Normal (),
   {| address := address w; loading := loading w; log := log w ++ [ev] |}).

Definition throw {A} (e : js_error) : Eff A := λ w, (Throw e, w).

Definition read_address : Eff jsstring := λ w, (Normal (address w), w).

Definition preventDefault : Eff unit := emit EvPreventDefault.

Definition alert (message : jsstring) : Eff unit := emit (EvAlert message).

Definition setLoading (value : bool) : Eff unit := λ w,
  (Normal (),
   {| address := address w; loading := value;
      log := log w ++ [EvSetLoading value] |}).

Definition console_error (label : jsstring) (error : js_error) : Eff unit :=
  emit (EvConsoleError label error).

Definition router_push (href : jsstring) : Eff unit :=
  emit (EvRouterPush href).

(** [await fetch(url, init)]. *)
Definition fetch (net : network) (url : jsstring) (init : RequestInit)
  : Eff Response :=
  emit (EvFetch url init);;
  match net url init with
  | Rejected => throw FetchFailed
  | Resolved r => mret r
  end.

(** [await response.json()]. *)
Definition response_json (r : Response) : Eff jsval :=
  match json r with
  | Some v => mret v
  | None => throw BodySyntaxError
  end.

(** [data.key]: reading a property of [null] or [undefined] throws, a
    primitive or an array has no such property. *)
Definition get_property (data : jsval) (key : jsstring) : Eff jsval :=
  match data with
  | JUndefined | JNull => throw NullishPropertyRead
  | JObj fields => mret (own_property fields key)
  | _ => mret JUndefined
  end.

(** [try { body } catch (error) { handler } finally { final }]. *)
Definition try_catch_finally {A} (body : Eff A) (handler : js_error → Eff A)
  (final : Eff unit) : Eff A := λ w,
  let '(c1, w1) := body w in
  let '(c2, w2) :=
    match c1 with
    | Normal a => (Normal a, w1)
    | Throw e => handler e w1
    end in
  match final w2 with
  | (Normal _, w3) => (c2, w3)
  | (Throw e, w3) => (Throw e, w3)
  end.

Definition api_url : jsstring := lit "http://localhost:8000/api/v1/analysis".

(** The object handed to [JSON.stringify]. *)
Definition payload (address : jsstring) : list (jsstring * jsstring) :=
  [(lit "address", address); (lit "building_type", lit "house")].

Definition request_init (address : jsstring) : RequestInit :=
  {| method := lit "POST";
     headers := [(lit "Content-Type", lit "application/json")];
     body := JSON_stringify (payload address) |}.

Definition handleSubmit (net : network) : Eff unit :=
  preventDefault;;
  address ← read_address;
  if negb (truthy (trim address)) then
    alert (lit "주소를 입력해주세요.")
  else
    setLoading true;;
    try_catch_finally
      (response ← fetch net api_url (request_init address);
       (if negb (ok response)
        then throw (ErrorObject (lit "분석 요청 실패"))
        else mret ());;
       data ← response_json response;
       request_id ← get_property data (lit "request_id");
       router_push (lit "/analysis/" ++ ToString request_id))
      (λ error,
         console_error (lit "Error:") error;;
         alert (lit "분석 요청에 실패했습니다. 다시 시도해주세요."))
      (setLoading false).

(** The component with [address] typed in, before the form is submitted. *)
Definition mounted (address : jsstring) (loading : bool) : world :=
  {| address := address; loading := loading; log := [] |}.

(** One submission of the form. *)
Definition submit (net : network) (address : jsstring) (loading : bool)
  : completion unit * world :=
  handleSubmit net (mounted address loading).

(** The requests sent and the navigations made, read off the effects. *)
Definition fetches (l : list event) : list (jsstring * RequestInit) :=
  omap (λ ev, match ev with EvFetch u i => Some (u, i) | _ => None end) l.

Definition pushes (l : list event) : list jsstring :=
  omap (λ ev, match ev with EvRouterPush h => Some h | _ => None end) l.

End HomePage.

(** ** The documented interface of the analysis endpoint (project README) *)

Module Api.
Import JS HomePage.

(** The response to [POST /api/v1/analysis] as the README documents it,
    for the request id the server assigned. *)
Definition analysis_response (request_id : jsstring) : jsval :=
  JObj [(lit "request_id", JStr request_id);
        (lit "status", JStr (lit "processing"));
        (lit "message", JStr (lit "분석이 시작되었습니다."));
        (lit "estimated_time", JNum (lit "30"))].


(** Reading a property of a response body. *)
Definition field (v : jsval) (key : string) : jsval :=
  match v with
  | JObj fields => own_property fields (lit key)
  | _ => JUndefined
  end.

(** A back end that accepts every submission and answers as documented. *)
Definition documented_backend (new_id : jsstring → jsstring) : network :=
  λ url init,
    Resolved {| ok := true; json := Some (analysis_response (new_id (body init))) |}.

End Api.

(** ** The analysis pipeline

    The back end is not part of the repository; its components are modelled
    from the specification, section by section.  Quantities are exact
    rationals: the specification rounds only at the output boundary. *)

Open Scope Q_scope.

Module Core.

(** *** Data model *)

(** Modelled from the spec: the Location record of the data model (the
    geocoding code is missing). *)
Record Location := {
  loc_address : string;
  latitude : Q;
  longitude : Q;
  region : string
}.

(** Modelled from the spec: the dominant orientation of a roof, one of eight
    compass sectors or unknown (the roof estimation code is missing). *)
Inductive orientation :=
| North | NorthEast | East | SouthEast | South | SouthWest | West | NorthWest
| UnknownOrientation.

(** Modelled from the spec: the RoofProfile record (the roof estimation code
    is missing). *)
Record RoofProfile := {
  total_area : Q;
  usable_area : Q;
  dominant_orientation : orientation;
  slope_angle : Q
}.

Definition sum_Q (xs : list Q) : Q := foldr Qplus 0 xs.

(** Modelled from the spec: the invariant of a ClimateSeries, exactly 12
    entries with values at least 0 (the climate code is missing). *)
Definition series_ok (xs : list Q) : bool :=
  (length xs =? 12)%nat && forallb (Qle_bool 0) xs.

(** Modelled from the spec: the ClimateSeries record, which carries its
    invariant (the climate code is missing). *)
Record ClimateSeries := {
  climate_region : string;
  irradiance : list Q;
  stale : bool;
  irradiance_ok : series_ok irradiance = true
}.

(** Modelled from the spec: admission of reference data from the climate
    store into a ClimateSeries; data that breaks the invariant is not
    admitted (the climate code is missing). *)
Definition make_series (r : string) (xs : list Q) (old : bool)
  : option ClimateSeries :=
  match series_ok xs as b return series_ok xs = b → option ClimateSeries with
  | true => λ H, Some {| climate_region := r; irradiance := xs; stale := old;
                         irradiance_ok := H |}
  | false => λ _, None
  end eq_refl.

(** Modelled from the spec: the YieldEstimate record (the prediction code is
    missing). *)
Record YieldEstimate := {
  recommended_capacity : Q;
  monthly_generation : list Q;
  annual_generation : Q
}.

(** Modelled from the spec: the payback period, a number of years or the
    report that the cost is not recoverable (the economics code is
    missing). *)
Inductive payback :=
| Years (y : Q)
| NotRecoverable.

(** Modelled from the spec: the EconomicProfile record (the economics code
    is missing). *)
Record EconomicProfile := {
  installation_cost : Q;
  subsidy_amount : Q;
  net_cost : Q;
  annual_savings : Q;
  payback_period : payback
}.

(** Modelled from the spec: the EnvironmentalProfile record (the
    environmental code is missing). *)
Record EnvironmentalProfile := {
  co2_reduction : Q;
  tree_equivalent : Z
}.

(** *** Yield Predictor (section 4.4) *)

(** Modelled from the spec: the constants and the trained model the Yield
    Predictor consumes; the model is an opaque scoring function, the ideal
    generation of a month for a capacity and an irradiance (the prediction
    code is missing). *)
Record YieldModel := {
  panel_density : Q;
  max_capacity : string → Q;
  ideal_generation : Q → Q → Q;
  orientation_factor : orientation → Q;
  optimum_slope : Q;
  slope_factor : Q → Q
}.

(** Modelled from the spec: capacity is usable area times the panel density,
    capped by the policy of the building type. *)
Definition capacity_for (M : YieldModel) (roof : RoofProfile)
  (building_type : string) : Q :=
  Qmin (usable_area roof * panel_density M) (max_capacity M building_type).

(** Modelled from the spec: generation of a month from capacity, the
    irradiance of the month and the two derating multipliers. *)
Definition month_generation (M : YieldModel) (capacity : Q)
  (roof : RoofProfile) (irr : Q) : Q :=
  ideal_generation M capacity irr
  * orientation_factor M (dominant_orientation roof)
  * slope_factor M (slope_angle roof).

(** Modelled from the spec: the Yield Predictor (the prediction code is
    missing). *)
Definition yield_predictor (M : YieldModel) (roof : RoofProfile)
  (climate : ClimateSeries) (building_type : string) : YieldEstimate :=
  let capacity := capacity_for M roof building_type in
  let monthly := month_generation M capacity roof <$> irradiance climate in
  {| recommended_capacity := capacity;
     monthly_generation := monthly;
     annual_generation := sum_Q monthly |}.

(** Modelled from the spec: rounding to a fixed number of decimals, applied
    at the output boundary only. *)
Definition round_to (d : nat) (x : Q) : Q :=
  inject_Z (Qfloor (x * inject_Z (10 ^ Z.of_nat d)%Z + (1 # 2)))
  / inject_Z (10 ^ Z.of_nat d)%Z.

(** Half a unit of the last decimal kept, the most that rounding moves a
    value. *)
Definition half_unit (d : nat) : Q := (1 # 2) / inject_Z (10 ^ Z.of_nat d)%Z.

(** Modelled from the spec: the figures of a YieldEstimate as they leave
    the core, each rounded to [d] decimals. *)
Record YieldReport := {
  capacity_figure : Q;
  monthly_figures : list Q;
  annual_figure : Q
}.

Definition present_yield (d : nat) (y : YieldEstimate) : YieldReport :=
  {| capacity_figure := round_to d (recommended_capacity y);
     monthly_figures := round_to d <$> monthly_generation y;
     annual_figure := round_to d (annual_generation y) |}.

(** Steps of 45 degrees between a sector and true south. *)
Definition off_south (o : orientation) : option nat :=
  match o with
  | South => Some 0%nat
  | SouthEast | SouthWest => Some 1%nat
  | East | West => Some 2%nat
  | NorthEast | NorthWest => Some 3%nat
  | North => Some 4%nat
  | UnknownOrientation => None
  end.

(** [toward_south o o']: [o'] is at least as close to the optimum as [o]. *)
Definition toward_south (o o' : orientation) : Prop :=
  match off_south o, off_south o' with
  | Some a, Some b => (b ≤ a)%nat
  | _, _ => o = o'
  end.

(** [toward_optimum M s s']: slope [s'] is at least as close to the regional
    optimum as [s]. *)
Definition toward_optimum (M : YieldModel) (s s' : Q) : Prop :=
  Qabs (s' - optimum_slope M) <= Qabs (s - optimum_slope M).


(** An instance of the contract, calibrated on scenario A of the
    specification: 135 square metres facing south at 25 degrees give 18 kW
    and about 3650 kWh a year. *)
Definition sample_model : YieldModel :=
  {| panel_density := 2 # 15;
     max_capacity := λ _, 30;
     ideal_generation := λ c i, c * i * 5;
     orientation_factor := λ o,
       match off_south o with
       | Some n => 1 - inject_Z (Z.of_nat n) * (1 # 10)
       | None => 1 # 2
       end;
     optimum_slope := 30;
     slope_factor := λ s, Qmax 0 (1 - Qabs (s - 30) * (1 # 100)) |}.

Definition sample_roof (area : Q) (o : orientation) (slope : Q)
  : RoofProfile :=
  {| total_area := area * (10 # 9); usable_area := area;
     dominant_orientation := o; slope_angle := slope |}.

Definition sample_series (irr : Q) : ClimateSeries :=
  default {| climate_region := "none"; irradiance := replicate 12 0;
             stale := false; irradiance_ok := eq_refl |}
    (make_series "gyeonggi" (replicate 12 irr) false).

(** *** Economics Engine (section 4.5) *)

(** Modelled from the spec: the rate table, amounts in the smallest currency
    unit (the economics code is missing). *)
Record RateTable := {
  cost_per_kw : Q;
  subsidy_rate : Q;
  subsidy_cap : Q;
  tariff : Q
}.

(** Modelled from the spec: the Economics Engine (the economics code is
    missing). *)
Definition economics_engine (y : YieldEstimate) (rates : RateTable)
  : EconomicProfile :=
  let installation := recommended_capacity y * cost_per_kw rates in
  let subsidy := Qmin (installation * subsidy_rate rates) (subsidy_cap rates) in
  let net := installation - subsidy in
  let savings := annual_generation y * tariff rates in
  {| installation_cost := installation;
     subsidy_amount := subsidy;
     net_cost := net;
     annual_savings := savings;
     payback_period :=
       if Qlt_le_dec 0 savings then Years (net / savings) else NotRecoverable |}.


(** Rates under which the engine reproduces the economic analysis printed
    in the README: 500000 per kW, a subsidy of one fifth, 150 per kWh. *)
Definition readme_rates : RateTable :=
  {| cost_per_kw := 500000; subsidy_rate := 1 # 5; subsidy_cap := 3000000;
     tariff := 150 |}.

(** *** Environmental Engine (section 4.6) *)

(** Modelled from the spec: the two fixed linear conversion factors (the
    environmental code is missing). *)
Record Conversion := {
  co2_per_kwh : Q;
  trees_per_ton : Q
}.

(** Modelled from the spec: the Environmental Engine (the environmental code
    is missing). *)
Definition environmental_engine (K : Conversion) (annual : Q)
  : EnvironmentalProfile :=
  let co2 := annual * co2_per_kwh K in
  {| co2_reduction := co2;
     tree_equivalent := Z.max 0 (Qfloor (co2 * trees_per_ton K)) |}.

End Core.

Module Pipeline.
Import Core.

(** *** Roof Estimator (section 4.2) *)

(** Modelled from the spec: what segmentation of the overhead imagery yields
    (the imagery code is missing). *)
Record Segmentation := {
  footprint_area : Q;
  principal_axis : orientation;
  measured_slope : option Q;
  segmentation_confidence : Q
}.

(** Modelled from the spec: the constants of the Roof Estimator (the roof
    estimation code is missing). *)
Record RoofPolicy := {
  obstruction_fraction : Q;
  confidence_threshold : Q;
  regional_slope : string → Q;
  typical_roof : string → RoofProfile
}.

(** Modelled from the spec: the Roof Estimator; the flag reports that the
    building-type heuristic replaced the imagery (the roof estimation code
    is missing). *)
Definition roof_estimator (R : RoofPolicy) (loc : Location)
  (building_type : string) (img : option Segmentation) : RoofProfile * bool :=
  match img with
  | Some seg =>
    if Qle_bool (confidence_threshold R) (segmentation_confidence seg)
    then ({| total_area := footprint_area seg;
             usable_area := footprint_area seg
                            - footprint_area seg * obstruction_fraction R;
             dominant_orientation := principal_axis seg;
             slope_angle := default (regional_slope R (region loc))
                              (measured_slope seg) |}, false)
    else (typical_roof R building_type, true)
  | None => (typical_roof R building_type, true)
  end.

(** *** Errors, degradations and results (sections 4.7 and 7) *)

(** Modelled from the spec: the reason codes of a failed request. *)
Inductive error_kind :=
| UnresolvableAddress
| NoClimateData
| ProviderExhausted
| TimeoutExceeded
| InternalFault.

(** Modelled from the spec: the recoverable degradations, surfaced as
    annotations of a completed result. *)
Inductive confidence_flag :=
| AmbiguousAddress
| RoofFallback
| StaleClimate.

(** Modelled from the spec: the AnalysisResult aggregate. *)
Record AnalysisResult := {
  origin : nat;
  location : Location;
  roof : RoofProfile;
  yield : YieldEstimate;
  economics : EconomicProfile;
  environment : EnvironmentalProfile;
  flags : list confidence_flag
}.

(** Modelled from the spec: how an analysis ends. *)
Inductive outcome :=
| Completed (r : AnalysisResult)
| Failed (reason : error_kind).

(** *** Providers (section 6) *)

(** Modelled from the spec: what the geocoding provider and the climate
    data store answer. *)
Inductive geo_signal :=
| GeoMatch (loc : Location)
| GeoAmbiguous (best : Location) (others : list Location)
| GeoNoMatch
| GeoExhausted.

Inductive climate_signal :=
| ClimateData (xs : list Q) (old : bool)
| CoverageMiss
| ClimateExhausted.

(** Modelled from the spec: the consumed interfaces, each a capability that
    answers a key with a value or a signal; an exhausted signal stands for
    transient errors that outlasted the bounded retries. *)
Class Providers := {
  geocoding : string → geo_signal;
  imagery : Location → option Segmentation;
  climate_store : string → climate_signal;
  rate_store : string → string → RateTable
}.

(** Modelled from the spec: the Geocoder; the flag reports an ambiguous
    address resolved to its best candidate (the geocoding code is
    missing). *)
Definition geocoder `{Providers} (address : string)
  : error_kind + Location * bool :=
  match geocoding address with
  | GeoMatch loc => inr (loc, false)
  | GeoAmbiguous best _ => inr (best, true)
  | GeoNoMatch => inl UnresolvableAddress
  | GeoExhausted => inl ProviderExhausted
  end.

(** Modelled from the spec: the Climate Resolver (the climate code is
    missing). *)
Definition climate_resolver `{Providers} (tag : string)
  : error_kind + ClimateSeries :=
  match climate_store tag with
  | CoverageMiss => inl NoClimateData
  | ClimateExhausted => inl ProviderExhausted
  | ClimateData xs old =>
    match make_series tag xs old with
    | Some series => inr series
    | None => inl InternalFault
    end
  end.

(** Modelled from the spec: the constants of the components. *)
Record Settings := {
  yield_model : YieldModel;
  roof_policy : RoofPolicy;
  conversion : Conversion
}.

Definition flag_if (b : bool) (f : confidence_flag) : list confidence_flag :=
  if b then [f] else [].

(** Modelled from the spec: the stages of one analysis in the order of the
    control flow, geocoding, then roof and climate, then yield, then
    economics and environment, then assembly (the orchestration code is
    missing). *)
Definition analyse `{Providers} (S : Settings) (id : nat)
  (address building_type : string) : outcome :=
  match geocoder address with
  | inl e => Failed e
  | inr (loc, ambiguous) =>
    let '(profile, fallback) :=
      roof_estimator (roof_policy S) loc building_type (imagery loc) in
    match climate_resolver (region loc) with
    | inl e => Failed e
    | inr climate =>
      let y := yield_predictor (yield_model S) profile climate building_type in
      Completed
        {| origin := id;
           location := loc;
           roof := profile;
           yield := y;
           economics :=
             economics_engine y (rate_store building_type (region loc));
           environment :=
             environmental_engine (conversion S) (annual_generation y);
           flags := flag_if ambiguous AmbiguousAddress
                    ++ flag_if fallback RoofFallback
                    ++ flag_if (stale climate) StaleClimate |}
    end
  end.

(** Providers for the examples: every address resolves, only Gyeonggi is
    covered by the climate data, no imagery is available. *)
Definition sample_providers : Providers :=
  {| geocoding := λ a,
       GeoMatch {| loc_address := a; latitude := 37; longitude := 127;
                   region := if String.prefix "경기도" a
                             then "gyeonggi" else "elsewhere" |};
     imagery := λ _, None;
     climate_store := λ tag,
       if decide (tag = "gyeonggi")
       then ClimateData (replicate 12 (71 # 20)) false
       else CoverageMiss;
     rate_store := λ _ _, readme_rates |}.

Definition sample_settings : Settings :=
  {| yield_model := sample_model;
     roof_policy :=
       {| obstruction_fraction := 1 # 10; confidence_threshold := 1 # 2;
          regional_slope := λ _, 30;
          typical_roof := λ _, sample_roof 135 South 25 |};
     conversion := {| co2_per_kwh := 31 # 73000; trees_per_ton := 4700 # 31 |} |}.


End Pipeline.

(** *** Analysis Orchestrator (sections 4.7 and 5) *)

Module Orchestrator.
Import Core Pipeline.

(** Modelled from the spec: the statuses of a request (the orchestration
    code is missing). *)
Inductive status := pending | processing | completed | failed.

#[export] Instance status_eq_dec : EqDecision status.
Proof. solve_decision. Defined.



(** Modelled from the spec: a fingerprint, the normalized address and the
    building type. *)
Definition fingerprint : Type := string * string.

(** Modelled from the spec: the AnalysisRequest record; [trail] lists the
    statuses the request went through, the latest first. *)
Record request := {
  req_fingerprint : fingerprint;
  req_status : status;
  result : option AnalysisResult;
  error : option error_kind;
  trail : list status
}.

(** Modelled from the spec: the shared mutable state of the core, the
    registry of fingerprints in flight and the result cache, next to the
    request records; [workers] lists the computations under way and
    [computed] every computation ever started. *)
Record store := {
  requests : gmap nat request;
  in_flight : gset fingerprint;
  cache : gmap fingerprint outcome;
  workers : list fingerprint;
  computed : list fingerprint
}.


Definition created (fp : fingerprint) : request :=
  {| req_fingerprint := fp; req_status := pending; result := None;
     error := None; trail := [pending] |}.

(** pending to processing. *)
Definition begin_work (r : request) : request :=
  {| req_fingerprint := req_fingerprint r; req_status := processing;
     result := result r; error := error r;
     trail := processing :: trail r |}.

(** processing to completed with the result attached, or to failed with the
    error attached; any other request is left as it is. *)
Definition settle (o : outcome) (r : request) : request :=
  match req_status r with
  | processing =>
    match o with
    | Completed res =>
      {| req_fingerprint := req_fingerprint r; req_status := completed;
         result := Some res; error := None; trail := completed :: trail r |}
    | Failed e =>
      {| req_fingerprint := req_fingerprint r; req_status := failed;
         result := None; error := Some e; trail := failed :: trail r |}
    end
  | _ => r
  end.

Definition settle_attached (fp : fingerprint) (o : outcome) (r : request)
  : request :=
  if decide (req_fingerprint r = fp) then settle o r else r.

Fixpoint remove_one (fp : fingerprint) (l : list fingerprint)
  : list fingerprint :=
  match l with
  | [] => []
  | x :: r => if decide (x = fp) then r else x :: remove_one fp r
  end.

(** Modelled from the spec: the atomic operations on the store, submission,
    start of work, end of a computation with its outcome (a timeout is the
    outcome failed with TimeoutExceeded), expiry of a cached entry. *)
Inductive label :=
| Submit (id : nat) (address building_type : string)
| Begin (id : nat)
| Finish (fp : fingerprint) (o : outcome)
| Expire (fp : fingerprint).

(** Modelled from the spec: one atomic operation of the orchestrator;
    [None] when the operation is rejected or not enabled (the orchestration
    code is missing). *)
Definition step (normalize : string → string) (l : label) (s : store)
  : option store :=
  match l with
  | Submit id address building_type =>
    if decide (normalize address = EmptyString) then None
    else match requests s !! id with
    | Some _ => None
    | None =>
      Some {| requests :=
                <[id := created (normalize address, building_type)]>
                  (requests s);
              in_flight := in_flight s; cache := cache s;
              workers := workers s; computed := computed s |}
    end
  | Begin id =>
    match requests s !! id with
    | None => None
    | Some r =>
      if decide (req_status r = pending) then
        let fp := req_fingerprint r in
        match cache s !! fp with
        | Some o =>
          Some {| requests := <[id := settle o (begin_work r)]> (requests s);
                  in_flight := in_flight s; cache := cache s;
                  workers := workers s; computed := computed s |}
        | None =>
          if decide (fp ∈ in_flight s) then
            Some {| requests := <[id := begin_work r]> (requests s);
                    in_flight := in_flight s; cache := cache s;
                    workers := workers s; computed := computed s |}
          else
            Some {| requests := <[id := begin_work r]> (requests s);
                    in_flight := {[fp]} ∪ in_flight s; cache := cache s;
                    workers := fp :: workers s;
                    computed := fp :: computed s |}
        end
      else None
    end
  | Finish fp o =>
    if decide (fp ∈ workers s) then
      Some {| requests := settle_attached fp o <$> requests s;
              in_flight := in_flight s ∖ {[fp]};
              cache := <[fp := o]> (cache s);
              workers := remove_one fp (workers s);
              computed := computed s |}
    else None
  | Expire fp =>
    match cache s !! fp with
    | Some _ =>
      Some {| requests := requests s; in_flight := in_flight s;
              cache := delete fp (cache s);
              workers := workers s; computed := computed s |}
    | None => None
    end
  end.








End Orchestrator.

(** ** Request bodies as JSON text *)

Module JSONText.
Import JS.
#[local] Open Scope N_scope.

(** Value of a hexadecimal digit. *)
Definition unhex (c : N) : option N :=
  if (0x30 <=? c) && (c <=? 0x39) then Some (c - 0x30)
  else if (0x61 <=? c) && (c <=? 0x66) then Some (c - 0x61 + 10)
  else if (0x41 <=? c) && (c <=? 0x46) then Some (c - 0x41 + 10)
  else None.

(** The single-character escapes of a JSON string. *)
Definition simple_escape (e : N) : option N :=
  if e =? 0x22 then Some 0x22
  else if e =? 0x5C then Some 0x5C
  else if e =? 0x2F then Some 0x2F
  else if e =? 0x62 then Some 0x08
  else if e =? 0x66 then Some 0x0C
  else if e =? 0x6E then Some 0x0A
  else if e =? 0x72 then Some 0x0D
  else if e =? 0x74 then Some 0x09
  else None.

Definition prepend (c : N) (r : option (jsstring * jsstring))
  : option (jsstring * jsstring) :=
  match r with
  | Some (s, rest) => Some (c :: s, rest)
  | None => None
  end.

(** Reads the characters of a JSON string up to its closing quote, as the
    JSON grammar has them; gives the string and what follows the quote. *)
Fixpoint read_units (s : jsstring) : option (jsstring * jsstring) :=
  match s with
  | [] => None
  | c :: r =>
    if c =? 0x22 then Some ([], r)
    else if c =? 0x5C then
      match r with
      | [] => None
      | e :: r1 =>
        if e =? 0x75 then
          match r1 with
          | h3 :: h2 :: h1 :: h0 :: r2 =>
            match unhex h3, unhex h2, unhex h1, unhex h0 with
            | Some a, Some b, Some c', Some d =>
              prepend (a * 4096 + b * 256 + c' * 16 + d) (read_units r2)
            | _, _, _, _ => None
            end
          | _ => None
          end
        else
          match simple_escape e with
          | Some u => prepend u (read_units r1)
          | None => None
          end
      end
    else if c <? 0x20 then None
    else prepend c (read_units r)
  end.

(** Reads one JSON string, opening quote included. *)
Definition read_string (s : jsstring) : option (jsstring * jsstring) :=
  match s with
  | c :: r => if c =? 0x22 then read_units r else None
  | [] => None
  end.

(** Reads the members of a JSON object whose values are all strings, after
    its opening brace. *)
Fixpoint read_members (fuel : nat) (s : jsstring)
  : option (list (jsstring * jsstring)) :=
  match fuel with
  | O => None
  | S fuel' =>
    match read_string s with
    | Some (k, c :: r) =>
      if c =? 0x3A then
        match read_string r with
        | Some (v, d :: r') =>
          if d =? 0x7D then
            match r' with [] => Some [(k, v)] | _ :: _ => None end
          else if d =? 0x2C then
            match read_members fuel' r' with
            | Some ms => Some ((k, v) :: ms)
            | None => None
            end
          else None
        | _ => None
        end
      else None
    | _ => None
    end
  end.

(** Reads the JSON text of an object whose values are all strings. *)
Definition read_object (s : jsstring) : option (list (jsstring * jsstring)) :=
  match s with
  | c :: r =>
    if c =? 0x7B then
      match r with
      | [d] => if d =? 0x7D then Some [] else None
      | _ => read_members (length r) r
      end
    else None
  | [] => None
  end.




(** One member of the object text [JSON_stringify] writes. *)
Definition member_text (kv : jsstring * jsstring) : jsstring :=
  QuoteJSONString kv.1 ++ [0x3A] ++ QuoteJSONString kv.2.

End JSONText.

(** ** What the page renders *)

Module View.
Import JS.

(** The handlers the page attaches to its elements. *)
Inductive handler :=
| H_handleSubmit
| H_setAddress_of_target_value.

Inductive prop :=
| PString (s : jsstring)
| PBool (b : bool)
| PIndex (i : nat)
| PHandler (h : handler).

(** A rendered tree: text, an element or component with its props and
    children, or a fragment. *)
Inductive node :=
| Text (s : jsstring)
| Element (tag : string) (props : list (string * prop)) (children : list node)
| Fragment (children : list node).

(** [features.map((feature, index) => ...)]. *)
Fixpoint map_with_index {A B} (f : A → nat → B) (from : nat) (l : list A)
  : list B :=
  match l with
  | [] => []
  | x :: r => f x from :: map_with_index f (S from) r
  end.

Definition FeatureCard (icon : node) (title description : jsstring) : node :=
  Element "div"
    [("className", PString (lit "p-6 rounded-xl bg-gradient-to-br from-white to-gray-50 shadow-md hover:shadow-xl transition-shadow"))]
    [Element "div" [("className", PString (lit "mb-4"))] [icon];
     Element "h3" [("className", PString (lit "text-xl font-semibold mb-2"))]
       [Text title];
     Element "p" [("className", PString (lit "text-gray-600"))]
       [Text description]].

(** [number] is rendered as React renders a number, in decimal. *)
Definition Step (number : N) (title description : jsstring) : node :=
  Element "div" [("className", PString (lit "flex gap-6 items-start"))]
    [Element "div"
       [("className", PString (lit "flex-shrink-0 w-12 h-12 rounded-full bg-gradient-to-r from-yellow-500 to-orange-500 flex items-center justify-center text-white font-bold text-xl"))]
       [Text (lit (pretty number))];
     Element "div" [("className", PString (lit "flex-1"))]
       [Element "h3"
          [("className", PString (lit "text-2xl font-semibold mb-2"))]
          [Text title];
        Element "p" [("className", PString (lit "text-gray-600"))]
          [Text description]]].

(** The callback of [features.map] in [PricingCard]. *)
Definition feature_item (feature : jsstring) (index : nat) : node :=
  Element "li"
    [("key", PIndex index);
     ("className", PString (lit "flex items-center gap-2"))]
    [Element "Check"
       [("className", PString (lit "w-5 h-5 flex-shrink-0"))] [];
     Element "span" [] [Text feature]].

Definition PricingCard (name price : jsstring) (features : list jsstring)
  (buttonText : jsstring) (highlighted : bool) : node :=
  Element "div"
    [("className",
      PString (lit "p-8 rounded-2xl "
               ++ (if highlighted
                   then lit "bg-gradient-to-br from-yellow-500 to-orange-500 text-white shadow-2xl scale-105"
                   else lit "bg-white shadow-md")))]
    [Element "h3" [("className", PString (lit "text-2xl font-bold mb-2"))]
       [Text name];
     Element "div" [("className", PString (lit "text-4xl font-bold mb-6"))]
       [Text price];
     Element "ul" [("className", PString (lit "space-y-3 mb-8"))]
       (map_with_index feature_item 0 features);
     Element "button"
       [("className",
         PString (lit "w-full py-3 rounded-xl font-semibold transition-all "
                  ++ (if highlighted
                      then lit "bg-white text-orange-500 hover:bg-gray-100"
                      else lit "bg-gradient-to-r from-yellow-500 to-orange-500 text-white hover:shadow-lg")))]
       [Text buttonText]].

(** The search form of the home page, for the state of the component. *)
Definition search_form (address : jsstring) (loading : bool) : node :=
  Element "form"
    [("onSubmit", PHandler H_handleSubmit);
     ("className", PString (lit "max-w-2xl mx-auto mb-12"))]
    [Element "div"
       [("className",
         PString (lit "flex gap-3 p-2 bg-white rounded-2xl shadow-xl"))]
       [Element "div"
          [("className", PString (lit "flex-1 flex items-center gap-3 px-4"))]
          [Element "MapPin"
             [("className", PString (lit "w-5 h-5 text-gray-400"))] [];
           Element "input"
             [("type", PString (lit "text"));
              ("value", PString address);
              ("onChange", PHandler H_setAddress_of_target_value);
              ("placeholder",
               PString (lit "주소를 입력하세요 (예: 경기도 수원시 영통구 광교로 156)"));
              ("className", PString (lit "flex-1 outline-none text-lg"));
              ("disabled", PBool loading)] []];
        Element "button"
          [("type", PString (lit "submit"));
           ("disabled", PBool loading);
           ("className",
            PString (lit "px-8 py-4 bg-gradient-to-r from-yellow-500 to-orange-500 text-white rounded-xl font-semibold hover:shadow-lg transition-all disabled:opacity-50 disabled:cursor-not-allowed flex items-center gap-2"))]
          [if loading
           then Fragment
                  [Element "div"
                     [("className",
                       PString (lit "w-5 h-5 border-2 border-white border-t-transparent rounded-full animate-spin"))]
                     [];
                   Text (lit "분석 중...")]
           else Fragment
                  [Text (lit "분석 시작");
                   Element "ArrowRight"
                     [("className", PString (lit "w-5 h-5"))] []]]]].

(** The elements and components of a tree with a given tag, in document
    order. *)
Fixpoint find_all (tag : string) (n : node) : list node :=
  match n with
  | Text _ => []
  | Element t props children =>
    (if decide (t = tag) then [n] else [])
    ++ (fix each (l : list node) : list node :=
          match l with
          | [] => []
          | c :: r => find_all tag c ++ each r
          end) children
  | Fragment children =>
    (fix each (l : list node) : list node :=
       match l with
       | [] => []
       | c :: r => find_all tag c ++ each r
       end) children
  end.

(** The text of a tree, in document order. *)
Fixpoint text_of (n : node) : jsstring :=
  match n with
  | Text s => s
  | Element _ _ children | Fragment children =>
    (fix each (l : list node) : jsstring :=
       match l with
       | [] => []
       | c :: r => text_of c ++ each r
       end) children
  end.

Fixpoint lookup_prop (name : string) (props : list (string * prop))
  : option prop :=
  match props with
  | [] => None
  | (k, v) :: r => if decide (k = name) then Some v else lookup_prop name r
  end.

Definition prop_of (name : string) (n : node) : option prop :=
  match n with
  | Element _ props _ => lookup_prop name props
  | _ => None
  end.

End View.

(** ** The page in use *)

Module Session.
Import JS HomePage.

(** [setAddress(e.target.value)], the change handler of the input; it is
    not an effect of the submission handler and leaves the log alone. *)
Definition setAddress (value : jsstring) (w : world) : world :=
  {| address := value; loading := loading w; log := log w |}.

(** What the visitor does: edits the input, or submits the form and waits
    for the handler to return, the network answering as given. *)
Inductive action :=
| Edit (value : jsstring)
| Submission (net : network).

Definition act (w : world) (a : action) : world :=
  match a with
  | Edit value => setAddress value w
  | Submission net => (handleSubmit net w).2
  end.

(** The component as mounted: [useState('')] and [useState(false)]. *)
Definition initial : world := mounted [] false.

Definition session (actions : list action) : world :=
  foldl act initial actions.

(** The addresses that pass validation, submission by submission, for the
    address in the input at the start. *)
Fixpoint submitted (current : jsstring) (actions : list action)
  : list jsstring :=
  match actions with
  | [] => []
  | Edit value :: rest => submitted value rest
  | Submission _ :: rest =>
    (if truthy (trim current) then [current] else []) ++ submitted current rest
  end.

(** The value last typed, for the value in the input at the start. *)
Fixpoint last_edit (current : jsstring) (actions : list action) : jsstring :=
  match actions with
  | [] => current
  | Edit value :: rest => last_edit value rest
  | Submission _ :: rest => last_edit current rest
  end.

(** Each effect with the loading flag in force when it happened. *)
Fixpoint flags_seen (flag : bool) (l : list event) : list (event * bool) :=
  match l with
  | [] => []
  | EvSetLoading v :: rest => (EvSetLoading v, flag) :: flags_seen v rest
  | ev :: rest => (ev, flag) :: flags_seen flag rest
  end.

(** The effects that belong to the request: sending it, logging its
    failure, navigating on its success. *)
Definition of_request (ev : event) : bool :=
  match ev with
  | EvFetch _ _ | EvConsoleError _ _ | EvRouterPush _ => true
  | _ => false
  end.

Definition alerts (l : list event) : list jsstring :=
  omap (λ ev, match ev with EvAlert m => Some m | _ => None end) l.

Definition console_errors (l : list event) : list js_error :=
  omap (λ ev, match ev with EvConsoleError _ e => Some e | _ => None end) l.

End Session.

(** * Properties *)

(** ** Trimming *)

Section TrimFacts.
Import JS.

Lemma trimStart_nil_iff (s : jsstring) :
  trimStart s = [] ↔ forallb is_white_space s = true.
Proof.
  induction s as [|c r IH]; simpl; [done|].
  destruct (is_white_space c) eqn:E; simpl; [exact IH|].
  split; intros; discriminate.
Qed.

Lemma trimStart_fixed (s : jsstring) :
  forallb is_white_space (trimStart s) = true → trimStart s = [].
Proof.
  induction s as [|c r IH]; simpl; [done|].
  destruct (is_white_space c) eqn:E; [exact IH|].
  simpl. rewrite E. discriminate.
Qed.

Lemma forallb_reverse (f : N → bool) (s : jsstring) :
  forallb f (reverse s) = forallb f s.
Proof.
  induction s as [|c r IH]; [done|].
  rewrite reverse_cons, forallb_app, IH. simpl.
  rewrite andb_true_r. apply andb_comm.
Qed.

(** The trim of a string is empty exactly when the string is empty or holds
    white space only. *)
Lemma trim_nil_iff (s : jsstring) :
  trim s = [] ↔ forallb is_white_space s = true.
Proof.
  unfold trim, trimEnd. rewrite <- trimStart_nil_iff. split.
  - intros H. apply trimStart_fixed.
    apply (f_equal reverse) in H. rewrite reverse_involutive in H.
    simpl in H. apply trimStart_nil_iff in H.
    rewrite forallb_reverse in H. exact H.
  - intros ->. reflexivity.
Qed.

Lemma truthy_false_iff (s : jsstring) : truthy s = false ↔ s = [].
Proof. destruct s; simpl; split; intros; done. Qed.

End TrimFacts.

(** ** The submission handler, case by case *)

Section HomePageFacts.
Import JS HomePage Api.

Ltac unfold_handler :=
  unfold submit, handleSubmit, try_catch_finally, fetch, response_json,
    get_property, mbind, Eff_bind, mret, Eff_ret; simpl.

Lemma submit_blank net a busy :
  truthy (trim a) = false →
  submit net a busy =
  (Normal (),
   {| address := a; loading := busy;
      log := [EvPreventDefault; EvAlert (lit "주소를 입력해주세요.")] |}).
Proof. intros H. unfold_handler. rewrite H. reflexivity. Qed.

Lemma submit_rejected net a busy :
  truthy (trim a) = true →
  net api_url (request_init a) = Rejected →
  submit net a busy =
  (Normal (),
   {| address := a; loading := false;
      log := [EvPreventDefault; EvSetLoading true;
              EvFetch api_url (request_init a);
              EvConsoleError (lit "Error:") FetchFailed;
              EvAlert (lit "분석 요청에 실패했습니다. 다시 시도해주세요.");
              EvSetLoading false] |}).
Proof.
  intros H Hn. unfold_handler. rewrite H. simpl. rewrite Hn. reflexivity.
Qed.

Lemma submit_not_ok net a busy r :
  truthy (trim a) = true →
  net api_url (request_init a) = Resolved r →
  ok r = false →
  submit net a busy =
  (Normal (),
   {| address := a; loading := false;
      log := [EvPreventDefault; EvSetLoading true;
              EvFetch api_url (request_init a);
              EvConsoleError (lit "Error:")
                (ErrorObject (lit "분석 요청 실패"));
              EvAlert (lit "분석 요청에 실패했습니다. 다시 시도해주세요.");
              EvSetLoading false] |}).
Proof.
  intros H Hn Hok. unfold_handler. rewrite H. simpl. rewrite Hn. simpl.
  rewrite Hok. reflexivity.
Qed.

Lemma submit_ok net a busy r :
  truthy (trim a) = true →
  net api_url (request_init a) = Resolved r →
  ok r = true →
  submit net a busy =
  (Normal (),
   {| address := a; loading := false;
      log := [EvPreventDefault; EvSetLoading true;
              EvFetch api_url (request_init a)]
             ++ match json r with
                | None =>
                  [EvConsoleError (lit "Error:") BodySyntaxError;
                   EvAlert (lit "분석 요청에 실패했습니다. 다시 시도해주세요.")]
                | Some (JUndefined | JNull) =>
                  [EvConsoleError (lit "Error:") NullishPropertyRead;
                   EvAlert (lit "분석 요청에 실패했습니다. 다시 시도해주세요.")]
                | Some (JObj fields) =>
                  [EvRouterPush
                     (lit "/analysis/"
                      ++ ToString (own_property fields (lit "request_id")))]
                | Some _ => [EvRouterPush (lit "/analysis/undefined")]
                end
             ++ [EvSetLoading false] |}).
Proof.
  intros H Hn Hok. unfold_handler. rewrite H. simpl. rewrite Hn. simpl.
  rewrite Hok. simpl. destruct (json r) as [[]|]; reflexivity.
Qed.

(** The requests a submission sends: none for a blank address, one
    otherwise. *)
Lemma fetches_of_submit net a busy :
  fetches (log (submit net a busy).2) =
  if truthy (trim a) then [(api_url, request_init a)] else [].
Proof.
  destruct (truthy (trim a)) eqn:Ht.
  - destruct (net api_url (request_init a)) as [|r] eqn:Hn.
    + by rewrite (submit_rejected _ _ _ Ht Hn).
    + destruct (ok r) eqn:Hok.
      * rewrite (submit_ok _ _ _ _ Ht Hn Hok). simpl.
        destruct (json r) as [[]|]; reflexivity.
      * by rewrite (submit_not_ok _ _ _ _ Ht Hn Hok).
  - by rewrite (submit_blank _ _ _ Ht).
Qed.

(** C1: for every address whose trim is empty (the empty string and every
    string of white space only), [handleSubmit] returns normally after
    [preventDefault] and one alert, without sending any request to the
    analysis endpoint and without touching the loading flag. *)
Theorem blank_address_sends_no_request net a busy :
  trim a = [] →
  fetches (log (submit net a busy).2) = []
  ∧ submit net a busy =
    (Normal (),
     {| address := a; loading := busy;
        log := [EvPreventDefault; EvAlert (lit "주소를 입력해주세요.")] |}).
Proof.
  intros H. apply truthy_false_iff in H.
  rewrite (submit_blank _ _ _ H). by split.
Qed.

Lemma blank_address_sends_no_request_witness :
  trim (lit "   ") = []
  ∧ fetches (log (submit (λ _ _, Rejected) (lit "   ") false).2) = [].
Proof.
  split; [reflexivity|].
  apply (blank_address_sends_no_request (λ _ _, Rejected) (lit "   ") false).
  reflexivity.
Defined.


(** C10: [router.push] is called only when [fetch] resolved to a response
    whose [ok] is true: when [fetch] rejects or [ok] is false nothing is
    pushed.  Every run that passed validation, whether the request
    succeeded or failed, ends with [setLoading(false)] and the loading flag
    false; a run rejected by validation leaves the flag as it was, so every
    run that starts with the form enabled returns with the flag false. *)
Theorem navigation_only_when_ok net a busy :
  let w := (submit net a busy).2 in
  (∀ href, href ∈ pushes (log w) →
     truthy (trim a) = true
     ∧ ∃ r, net api_url (request_init a) = Resolved r ∧ ok r = true)
  ∧ (net api_url (request_init a) = Rejected → pushes (log w) = [])
  ∧ (∀ r, net api_url (request_init a) = Resolved r → ok r = false →
       pushes (log w) = [])
  ∧ (truthy (trim a) = true →
       loading w = false ∧ last (log w) = Some (EvSetLoading false))
  ∧ (truthy (trim a) = false → loading w = busy)
  ∧ (busy = false → loading w = false).
Proof.
  destruct (truthy (trim a)) eqn:Ht.
  - destruct (net api_url (request_init a)) as [|r] eqn:Hn.
    + rewrite (submit_rejected _ _ _ Ht Hn). simpl.
      split_and!; try done. intros href Hin. by apply elem_of_nil in Hin.
    + destruct (ok r) eqn:Hok.
      * rewrite (submit_ok _ _ _ _ Ht Hn Hok). simpl.
        split_and!; try done; eauto.
        { intros r' [= <-]. congruence. }
        intros _. split; [done|].
        destruct (json r) as [[]|]; reflexivity.
      * rewrite (submit_not_ok _ _ _ _ Ht Hn Hok). simpl.
        split_and!; try done. intros href Hin. by apply elem_of_nil in Hin.
  - rewrite (submit_blank _ _ _ Ht). simpl.
    split_and!; try done. intros href Hin. by apply elem_of_nil in Hin.
Qed.

Lemma navigation_only_when_ok_witness :
  pushes (log (submit (λ _ _, Rejected) (lit "a") true).2) = []
  ∧ loading (submit (λ _ _, Rejected) (lit "a") true).2 = false.
Proof.
  pose proof (navigation_only_when_ok (λ _ _, Rejected) (lit "a") true) as H.
  simpl in H. destruct H as (_ & Hrej & _ & Hload & _ & _).
  split; [apply Hrej; reflexivity | apply Hload; reflexivity].
Defined.




End HomePageFacts.

(** ** Economics Engine *)

Section EconomicsFacts.
Import Core.


(** The figures of the README: 18 kW and 3650 kWh a year cost 9000000,
    receive 1800000, leave 7200000 to pay, save 547500 a year and pay back
    in 13.2 years. *)
Example readme_economic_analysis :
  let p := economics_engine
             {| recommended_capacity := 18; monthly_generation := [];
                annual_generation := 3650 |} readme_rates in
  installation_cost p == 9000000
  ∧ subsidy_amount p == 1800000
  ∧ net_cost p == 7200000
  ∧ annual_savings p == 547500
  ∧ ∃ v, payback_period p = Years v ∧ round_to 1 v == 132 # 10.
Proof.
  simpl. split_and!; try reflexivity.
  eexists. split; reflexivity.
Qed.



End EconomicsFacts.

(** ** Yield Predictor *)

Section YieldFacts.
Import Core.


Lemma pow10_pos (d : nat) : 0 < inject_Z (10 ^ Z.of_nat d).
Proof. rewrite <- (Zlt_Qlt 0). apply Z.pow_pos_nonneg; lia. Qed.


Lemma series_invariant (c : ClimateSeries) :
  length (irradiance c) = 12%nat ∧ Forall (Qle 0) (irradiance c).
Proof.
  pose proof (irradiance_ok c) as H. unfold series_ok in H.
  apply andb_true_iff in H as [Hl Hf]. split.
  - by apply Nat.eqb_eq.
  - apply Forall_forall. intros x Hx.
    apply Qle_bool_iff.
    rewrite forallb_forall in Hf. apply Hf. by apply list_elem_of_In.
Qed.







(** Holding an input fixed is a move toward the optimum. *)
Lemma toward_south_refl o : toward_south o o.
Proof. unfold toward_south. by destruct (off_south o). Qed.

Lemma toward_optimum_refl M s : toward_optimum M s s.
Proof. unfold toward_optimum. apply Qle_refl. Qed.

Lemma Forall2_Qle_refl (xs : list Q) : Forall2 Qle xs xs.
Proof. induction xs; constructor; [apply Qle_refl|assumption]. Qed.




(** Scenario A of the specification on the sample model: 18 kW and an
    annual generation within 5 percent of 3650 kWh. *)
Example scenario_A :
  let y := present_yield 1
             (yield_predictor sample_model (sample_roof 135 South 25)
                (sample_series (71 # 20)) "house") in
  capacity_figure y == 18
  ∧ 3650 * (95 # 100) <= annual_figure y <= 3650 * (105 # 100).
Proof. vm_compute. split; [reflexivity|]. split; discriminate. Qed.

Lemma round_to_error (d : nat) (x : Q) :
  Qabs (round_to d x - x) <= half_unit d.
Proof.
  unfold round_to, half_unit.
  pose proof (pow10_pos d) as Hp.
  set (p := inject_Z (10 ^ Z.of_nat d)) in *.
  pose proof (Qfloor_le (x * p + (1 # 2))) as Hlo.
  pose proof (Qlt_floor (x * p + (1 # 2))) as Hhi.
  rewrite inject_Z_plus in Hhi.
  set (z := inject_Z (Qfloor (x * p + (1 # 2)))) in *.
  apply Qabs_Qle_condition.
  assert (z / p - x == (z - x * p) / p) as -> by (field; lra).
  split.
  - apply Qle_shift_div_l; [exact Hp|]. 
    assert (- ((1 # 2) / p) * p == - (1 # 2)) as -> by (field; lra).
    change (inject_Z 1) with 1 in Hhi. lra.
  - apply Qle_shift_div_r; [exact Hp|].
    assert ((1 # 2) / p * p == 1 # 2) as -> by (field; lra).
    lra.
Qed.

Lemma sum_round_error (d : nat) (xs : list Q) :
  Qabs (sum_Q (round_to d <$> xs) - sum_Q xs)
  <= inject_Z (Z.of_nat (length xs)) * half_unit d.
Proof.
  unfold sum_Q. induction xs as [|x xs IH].
  - simpl. apply Qabs_Qle_condition. unfold Qle; simpl. lia.
  - rewrite fmap_cons. cbn [foldr length].
    rewrite Nat2Z.inj_succ, <- Z.add_1_r, inject_Z_plus.
    pose proof (round_to_error d x) as Hx.
    apply Qabs_Qle_condition in Hx. apply Qabs_Qle_condition in IH.
    apply Qabs_Qle_condition.
    change (inject_Z 1) with 1. split; lra.
Qed.

(** At the output boundary the annual figure and the sum of the monthly
    figures are rounded apart by at most 13 half units. *)
Lemma report_gap M roof climate bt d :
  let r := present_yield d (yield_predictor M roof climate bt) in
  Qabs (annual_figure r - sum_Q (monthly_figures r)) <= 13 * half_unit d.
Proof.
  cbn [present_yield yield_predictor annual_figure monthly_figures
       annual_generation monthly_generation].
  set (ms := month_generation M (capacity_for M roof bt) roof
             <$> irradiance climate).
  assert (length ms = 12%nat) as Hlen.
  { subst ms. rewrite length_fmap. apply (series_invariant climate). }
  pose proof (round_to_error d (sum_Q ms)) as Ha.
  pose proof (sum_round_error d ms) as Hm. rewrite Hlen in Hm.
  apply Qabs_Qle_condition in Ha. apply Qabs_Qle_condition in Hm.
  apply Qabs_Qle_condition.
  change (inject_Z (Z.of_nat 12)) with 12 in Hm. split; lra.
Qed.

(** From two decimals on, the figures agree within 0.1 kWh. *)
Lemma report_gap_fine M roof climate bt d :
  (2 ≤ d)%nat →
  let r := present_yield d (yield_predictor M roof climate bt) in
  Qabs (annual_figure r - sum_Q (monthly_figures r)) <= 1 # 10.
Proof.
  intros Hd r. eapply Qle_trans; [apply report_gap|].
  unfold half_unit.
  assert (100 <= inject_Z (10 ^ Z.of_nat d)) as Hp.
  { change 100 with (inject_Z (10 ^ 2)). rewrite <- Zle_Qle.
    apply Z.pow_le_mono_r; lia. }
  set (p := inject_Z (10 ^ Z.of_nat d)) in *.
  assert (13 * ((1 # 2) / p) == (13 # 2) / p) as -> by (field; lra).
  apply Qle_shift_div_r; lra.
Qed.

(** At one decimal they can be 0.5 kWh apart. *)
Example report_gap_coarse :
  let r := present_yield 1
             (yield_predictor sample_model (sample_roof 135 South 25)
                (sample_series (15002 # 4275)) "house") in
  annual_figure r - sum_Q (monthly_figures r) == 1 # 2.
Proof. vm_compute. reflexivity. Qed.

End YieldFacts.

(** ** Analysis Orchestrator *)

Section OrchestratorFacts.
Import Core Pipeline Orchestrator.






















Lemma begin_served normalize s id r o :
  requests s !! id = Some r → req_status r = pending →
  cache s !! req_fingerprint r = Some o →
  step normalize (Begin id) s =
  Some {| requests := <[id := settle o (begin_work r)]> (requests s);
          in_flight := in_flight s; cache := cache s;
          workers := workers s; computed := computed s |}.
Proof.
  intros Hid Hp Hc. simpl. rewrite Hid.
  rewrite decide_True by done. by rewrite Hc.
Qed.
















(** The covered case, for contrast: an address in Gyeonggi completes, the
    roof flagged as estimated by the fallback. *)
Example covered_address_completes :
  ∃ r, analyse (H := sample_providers) sample_settings 1
         "경기도 수원시 영통구 광교로 156" "house" = Completed r
       ∧ flags r = [RoofFallback].
Proof. eexists. split; reflexivity. Qed.



End OrchestratorFacts.

(** ** Trimming, in full *)

Section TrimMore.
Import JS.

Lemma trimStart_split (s : jsstring) :
  ∃ l, s = l ++ trimStart s ∧ forallb is_white_space l = true.
Proof.
  induction s as [|c r (l & Hl & Hw)]; [by exists []|]. simpl.
  destruct (is_white_space c) eqn:E.
  - exists (c :: l). simpl. rewrite E, Hw. split; [by f_equal|done].
  - by exists [].
Qed.

Lemma trimStart_head (s : jsstring) (c : N) :
  head (trimStart s) = Some c → is_white_space c = false.
Proof.
  induction s as [|d r IH]; [done|]. simpl.
  destruct (is_white_space d) eqn:E; [exact IH|].
  simpl. by intros [= <-].
Qed.

Lemma trimStart_id (s : jsstring) :
  (∀ c, head s = Some c → is_white_space c = false) → trimStart s = s.
Proof.
  destruct s as [|c r]; [done|]. simpl. intros H.
  by rewrite (H c eq_refl).
Qed.

Lemma trimEnd_split (s : jsstring) :
  ∃ r, s = trimEnd s ++ r ∧ forallb is_white_space r = true.
Proof.
  unfold trimEnd. destruct (trimStart_split (reverse s)) as (l & Hl & Hw).
  exists (reverse l). split.
  - rewrite <- reverse_app, <- Hl. by rewrite reverse_involutive.
  - by rewrite forallb_reverse.
Qed.

Lemma trimEnd_last (s : jsstring) (c : N) :
  last (trimEnd s) = Some c → is_white_space c = false.
Proof.
  unfold trimEnd. rewrite last_reverse. apply trimStart_head.
Qed.

Lemma trimEnd_head (s : jsstring) (c : N) :
  is_white_space c = false → head s = Some c → head (trimEnd s) = Some c.
Proof.
  intros Hc Hs. destruct s as [|d r]; [done|]. injection Hs as ->.
  destruct (trimEnd_split (c :: r)) as (t & Ht & Hw).
  destruct (trimEnd (c :: r)) as [|e u] eqn:E.
  - simpl in Ht. subst t. simpl in Hw. by rewrite Hc in Hw.
  - simpl in Ht. by injection Ht as <-.
Qed.

(** X3: [trim] removes a run of white space at each end and nothing else:
    the string is white space, then its trim, then white space; the trim
    neither starts nor ends with white space; trimming twice changes
    nothing more. *)
Theorem trim_characterised (s : jsstring) :
  (∃ l r, s = l ++ trim s ++ r
          ∧ forallb is_white_space l = true
          ∧ forallb is_white_space r = true)
  ∧ (∀ c, head (trim s) = Some c → is_white_space c = false)
  ∧ (∀ c, last (trim s) = Some c → is_white_space c = false)
  ∧ trim (trim s) = trim s.
Proof.
  assert (∀ c, head (trim s) = Some c → is_white_space c = false) as Hhead.
  { intros c Hc. unfold trim in Hc.
    destruct (trimStart s) as [|d u] eqn:E; [done|].
    pose proof (trimStart_head s d) as Hd. rewrite E in Hd.
    specialize (Hd eq_refl).
    rewrite (trimEnd_head (d :: u) d Hd eq_refl) in Hc. by injection Hc as <-. }
  assert (∀ c, last (trim s) = Some c → is_white_space c = false) as Hlast
    by (intros c; apply trimEnd_last).
  split_and!; try assumption.
  - destruct (trimStart_split s) as (l & Hl & Hwl).
    destruct (trimEnd_split (trimStart s)) as (r & Hr & Hwr).
    exists l, r. unfold trim. by rewrite <- Hr.
  - unfold trim at 1. rewrite (trimStart_id (trim s) Hhead).
    unfold trimEnd. rewrite trimStart_id; [apply reverse_involutive|].
    intros c. rewrite head_reverse. apply Hlast.
Qed.
End TrimMore.

(** ** The submission handler: effects and their order *)

Section HandlerFacts.
Import JS HomePage Api Session View.

Ltac submit_cases net a busy :=
  let Ht := fresh "Ht" in
  let Hn := fresh "Hn" in
  let Hok := fresh "Hok" in
  let r := fresh "r" in
  destruct (truthy (trim a)) eqn:Ht;
  [ destruct (net api_url (request_init a)) as [|r] eqn:Hn;
    [ rewrite (submit_rejected net a busy Ht Hn)
    | destruct (ok r) eqn:Hok;
      [ rewrite (submit_ok net a busy r Ht Hn Hok)
      | rewrite (submit_not_ok net a busy r Ht Hn Hok) ] ]
  | rewrite (submit_blank net a busy Ht) ].

Lemma own_property_missing (fields : list (jsstring * jsval)) (key : jsstring) :
  (∀ k v, (k, v) ∈ fields → k ≠ key) → own_property fields key = JUndefined.
Proof.
  induction fields as [|[k v] rest IH]; [done|]. intros H. simpl.
  unfold jsstring_eqb. rewrite bool_decide_eq_false_2.
  - apply IH. intros k' v' Hin. apply (H k' v'). by right.
  - apply (H k v). by left.
Qed.

Lemma own_property_first (pre post : list (jsstring * jsval)) key v :
  (∀ k u, (k, u) ∈ pre → k ≠ key) →
  own_property (pre ++ (key, v) :: post) key = v.
Proof.
  induction pre as [|[k u] pre IH]; intros H; simpl.
  - unfold jsstring_eqb. by rewrite bool_decide_eq_true_2.
  - unfold jsstring_eqb. rewrite bool_decide_eq_false_2.
    + apply IH. intros k' u' Hin. apply (H k' u'). by right.
    + apply (H k u). by left.
Qed.

Lemma address_after_submit net a busy : address (submit net a busy).2 = a.
Proof. submit_cases net a busy; reflexivity. Qed.

Lemma request_flags net a busy :
  forallb (λ p, implb (of_request p.1) p.2)
    (flags_seen busy (log (submit net a busy).2)) = true.
Proof.
  submit_cases net a busy; try reflexivity.
  destruct (json r) as [[]|]; reflexivity.
Qed.


(** X1: [handleSubmit] never throws: every run returns normally, starts
    with [preventDefault] and leaves the address as it was typed. *)
Theorem handler_always_returns net a busy :
  (submit net a busy).1 = Normal ()
  ∧ head (log (submit net a busy).2) = Some EvPreventDefault
  ∧ address (submit net a busy).2 = a.
Proof.
  split_and!; [|  |apply address_after_submit];
    submit_cases net a busy; reflexivity.
Qed.


Lemma forallb_false_iff (f : N → bool) (l : list N) :
  forallb f l = false ↔ ∃ c, c ∈ l ∧ f c = false.
Proof.
  induction l as [|d l IH]; simpl.
  - split; [done|]. intros (c & Hc & _). by apply elem_of_nil in Hc.
  - rewrite andb_false_iff, IH. split.
    + intros [Hd|(c & Hc & Hf)]; [exists d; split; [by left|done]|].
      exists c. split; [by right|done].
    + intros (c & [->|Hc]%elem_of_cons & Hf); [by left|right; by exists c].
Qed.

(** X2: a request is sent exactly when the address holds at least one code
    unit that is not white space. *)
Theorem request_iff_visible_character net a busy :
  fetches (log (submit net a busy).2) = [(api_url, request_init a)]
  ↔ ∃ c, c ∈ a ∧ is_white_space c = false.
Proof.
  rewrite fetches_of_submit, <- forallb_false_iff.
  destruct (forallb is_white_space a) eqn:Hf.
  - apply trim_nil_iff in Hf. rewrite Hf. simpl. split; intros; done.
  - destruct (truthy (trim a)) eqn:Ht; [done|].
    apply truthy_false_iff, trim_nil_iff in Ht. congruence.
Qed.

(** X4: every run gives exactly one piece of feedback, an alert or a
    navigation, and every run that passed validation either navigates or
    logs an error, never both and never neither. *)
Theorem one_feedback_per_run net a busy :
  (length (alerts (log (submit net a busy).2))
   + length (pushes (log (submit net a busy).2)) = 1)%nat
  ∧ (length (console_errors (log (submit net a busy).2))
     + length (pushes (log (submit net a busy).2))
     = if truthy (trim a) then 1 else 0)%nat.
Proof.
  submit_cases net a busy; try (by split).
  destruct (json r) as [[]|]; by split.
Qed.


(** X6: an ok response whose body is not JSON, or is null, is handled as a
    failure: no navigation, the failure alert, the loading flag reset. *)
Theorem unusable_body_is_a_failure net a busy r :
  truthy (trim a) = true →
  net api_url (request_init a) = Resolved r → ok r = true →
  json r = None ∨ json r = Some JNull →
  pushes (log (submit net a busy).2) = []
  ∧ alerts (log (submit net a busy).2)
    = [lit "분석 요청에 실패했습니다. 다시 시도해주세요."]
  ∧ loading (submit net a busy).2 = false.
Proof.
  intros Ht Hn Hok Hj. rewrite (submit_ok net a busy r Ht Hn Hok).
  by destruct Hj as [-> | ->].
Qed.

(** X7: an ok response whose body is JSON but holds no [request_id] (an
    object without that key, a number, a string, a boolean, an array) is
    not treated as an error: the page navigates to /analysis/undefined and
    shows no alert. *)
Theorem missing_request_id_navigates net a busy r v :
  truthy (trim a) = true →
  net api_url (request_init a) = Resolved r → ok r = true →
  json r = Some v → v ≠ JNull → v ≠ JUndefined →
  (∀ fields k u, v = JObj fields → (k, u) ∈ fields → k ≠ lit "request_id") →
  pushes (log (submit net a busy).2) = [lit "/analysis/undefined"]
  ∧ alerts (log (submit net a busy).2) = []
  ∧ console_errors (log (submit net a busy).2) = [].
Proof.
  intros Ht Hn Hok Hj Hnull Hundef Hmiss.
  rewrite (submit_ok net a busy r Ht Hn Hok), Hj.
  destruct v; try done. simpl.
  rewrite own_property_missing; [done|].
  intros k u. by apply Hmiss.
Qed.

(** X8: of a response the handler reads only [ok] and, when ok, the
    [request_id] of the body: two responses that agree there give the same
    run, whatever their other fields (status, message, estimated time), and
    the body of a response that is not ok is never looked at. *)
Theorem response_read_through_request_id net1 net2 a busy r1 r2 f1 f2 :
  net1 api_url (request_init a) = Resolved r1 →
  net2 api_url (request_init a) = Resolved r2 →
  ok r1 = ok r2 →
  (ok r1 = true →
   json r1 = Some (JObj f1) ∧ json r2 = Some (JObj f2)
   ∧ own_property f1 (lit "request_id") = own_property f2 (lit "request_id")) →
  submit net1 a busy = submit net2 a busy.
Proof.
  intros H1 H2 Hok Hbody.
  destruct (truthy (trim a)) eqn:Ht.
  - destruct (ok r1) eqn:Hok1.
    + destruct (Hbody eq_refl) as (Hj1 & Hj2 & Hid).
      rewrite (submit_ok net1 a busy r1 Ht H1 Hok1).
      rewrite (submit_ok net2 a busy r2 Ht H2 (eq_sym Hok)).
      by rewrite Hj1, Hj2, Hid.
    + rewrite (submit_not_ok net1 a busy r1 Ht H1 Hok1).
      by rewrite (submit_not_ok net2 a busy r2 Ht H2 (eq_sym Hok)).
  - by rewrite !submit_blank.
Qed.

(** X9: a run navigates at most once, and only to a path that starts with
    /analysis/. *)
Theorem navigation_stays_under_analysis net a busy :
  (length (pushes (log (submit net a busy).2)) ≤ 1)%nat
  ∧ ∀ href, href ∈ pushes (log (submit net a busy).2) →
      lit "/analysis/" `prefix_of` href.
Proof.
  submit_cases net a busy; simpl;
    try (split; [lia|intros href H; by apply elem_of_nil in H]).
  destruct (json r) as [[]|]; simpl;
    try (split; [lia|intros href H; by apply elem_of_nil in H]);
    (split; [lia|]); intros href ->%list_elem_of_singleton;
    by eexists.
Qed.

(** X10: the request is sent, its failure logged and the navigation made
    only while the loading flag is set; the flag is set and reset exactly
    once in a run that passed validation and never touched otherwise; the
    failure alert is shown before the flag is reset, the validation alert
    with the flag as it was. *)
Theorem request_runs_under_loading net a busy :
  forallb (λ p, implb (of_request p.1) p.2)
    (flags_seen busy (log (submit net a busy).2)) = true
  ∧ omap (λ ev, match ev with EvSetLoading v => Some v | _ => None end)
      (log (submit net a busy).2)
    = (if truthy (trim a) then [true; false] else [])
  ∧ (∀ m flag, (EvAlert m, flag) ∈ flags_seen busy (log (submit net a busy).2) →
       (m = lit "주소를 입력해주세요." ∧ flag = busy
        ∧ truthy (trim a) = false)
       ∨ (m = lit "분석 요청에 실패했습니다. 다시 시도해주세요." ∧ flag = true)).
Proof.
  split; [apply request_flags|].
  submit_cases net a busy; simpl.
  - split_and!; try done. intros m flag H.
    repeat (apply elem_of_cons in H as [H|H]; [try done; injection H as -> ->; by right|]).
    by apply elem_of_nil in H.
  - destruct (json r) as [[]|]; simpl; (split_and!; try done); intros m flag H;
    repeat (apply elem_of_cons in H as [H|H]; [try done; injection H as -> ->; by right|]);
    by apply elem_of_nil in H.
  - split_and!; try done. intros m flag H.
    repeat (apply elem_of_cons in H as [H|H]; [try done; injection H as -> ->; by right|]).
    by apply elem_of_nil in H.
  - split_and!; try done. intros m flag H.
    repeat (apply elem_of_cons in H as [H|H]; [try done; injection H as -> ->; by left|]).
    by apply elem_of_nil in H.
Qed.

Lemma unusable_body_is_a_failure_witness :
  pushes (log (submit (λ _ _, Resolved {| ok := true; json := None |})
                 (lit "a") false).2) = [].
Proof.
  apply (unusable_body_is_a_failure
           (λ _ _, Resolved {| ok := true; json := None |}) (lit "a") false
           {| ok := true; json := None |}).
  - reflexivity.
  - reflexivity.
  - reflexivity.
  - by left.
Defined.

Lemma missing_request_id_navigates_witness :
  pushes (log (submit (λ _ _, Resolved {| ok := true;
                                          json := Some (JObj []) |})
                 (lit "a") false).2) = [lit "/analysis/undefined"].
Proof.
  apply (missing_request_id_navigates
           (λ _ _, Resolved {| ok := true; json := Some (JObj []) |})
           (lit "a") false {| ok := true; json := Some (JObj []) |} (JObj [])).
  - reflexivity.
  - reflexivity.
  - reflexivity.
  - reflexivity.
  - discriminate.
  - discriminate.
  - intros fields k u [= <-] Hin. by apply elem_of_nil in Hin.
Defined.

Lemma response_read_through_request_id_witness :
  submit (documented_backend (λ _, lit "r1")) (lit "a") false
  = submit (λ _ _, Resolved {| ok := true;
                               json := Some (JObj [(lit "request_id",
                                                    JStr (lit "r1"))]) |})
      (lit "a") false.
Proof.
  apply (response_read_through_request_id
           (documented_backend (λ _, lit "r1"))
           (λ _ _, Resolved {| ok := true;
                               json := Some (JObj [(lit "request_id",
                                                    JStr (lit "r1"))]) |})
           (lit "a") false
           {| ok := true; json := Some (analysis_response (lit "r1")) |}
           {| ok := true;
              json := Some (JObj [(lit "request_id", JStr (lit "r1"))]) |}
           [(lit "request_id", JStr (lit "r1"));
            (lit "status", JStr (lit "processing"));
            (lit "message", JStr (lit "분석이 시작되었습니다."));
            (lit "estimated_time", JNum (lit "30"))]
           [(lit "request_id", JStr (lit "r1"))]).
  - reflexivity.
  - reflexivity.
  - reflexivity.
  - intros _. split_and!; reflexivity.
Defined.

Lemma navigation_stays_under_analysis_witness :
  lit "/analysis/r1" ∈ pushes (log (submit (documented_backend (λ _, lit "r1"))
                                      (lit "a") false).2)
  ∧ lit "/analysis/" `prefix_of` lit "/analysis/r1".
Proof.
  assert (lit "/analysis/r1"
          ∈ pushes (log (submit (documented_backend (λ _, lit "r1"))
                           (lit "a") false).2))
    as H by (vm_compute; constructor).
  split; [exact H|].
  destruct (navigation_stays_under_analysis
              (documented_backend (λ _, lit "r1")) (lit "a") false) as [_ Hp].
  apply (Hp _ H).
Defined.

Lemma request_runs_under_loading_witness :
  (EvAlert (lit "주소를 입력해주세요."), true)
  ∈ flags_seen true (log (submit (λ _ _, Rejected) (lit " ") true).2)
  ∧ truthy (trim (lit " ")) = false.
Proof.
  assert ((EvAlert (lit "주소를 입력해주세요."), true)
          ∈ flags_seen true (log (submit (λ _ _, Rejected) (lit " ") true).2))
    as H by (vm_compute; constructor; constructor).
  split; [exact H|].
  destruct (request_runs_under_loading (λ _ _, Rejected) (lit " ") true)
    as (_ & _ & Ha).
  destruct (Ha _ _ H) as [(_ & _ & Ht)|(Hm & _)];
    [exact Ht | vm_compute in Hm; discriminate Hm].
Defined.

End HandlerFacts.

(** ** The request body as JSON text *)

Section JSONFacts.
Import JS HomePage JSONText.
#[local] Open Scope N_scope.

Lemma unhex_hex_digit (d : N) : d < 16 → unhex (hex_digit d) = Some d.
Proof.
  intros Hd. unfold hex_digit, unhex.
  destruct (d <? 10) eqn:E.
  - apply N.ltb_lt in E.
    rewrite (proj2 (N.leb_le _ _)) by lia.
    rewrite (proj2 (N.leb_le _ _)) by lia. simpl. f_equal. lia.
  - apply N.ltb_ge in E.
    replace ((0x30 <=? 0x61 + (d - 10)) && (0x61 + (d - 10) <=? 0x39))
      with false.
    2:{ symmetry. apply andb_false_iff. right. apply N.leb_gt. lia. }
    rewrite (proj2 (N.leb_le _ _)) by lia.
    rewrite (proj2 (N.leb_le _ _)) by lia. simpl. f_equal. lia.
Qed.

Lemma hex_digits_value (c : N) :
  c < 0x10000 →
  (N.shiftr c 12 mod 16) * 4096 + (N.shiftr c 8 mod 16) * 256
  + (N.shiftr c 4 mod 16) * 16 + c mod 16 = c.
Proof.
  intros Hc. rewrite !N.shiftr_div_pow2.
  change (2 ^ 12) with (16 * 16 * 16). change (2 ^ 8) with (16 * 16).
  change (2 ^ 4) with 16.
  rewrite <- !N.Div0.div_div.
  pose proof (N.div_mod' c 16) as H1.
  pose proof (N.div_mod' (c / 16) 16) as H2.
  pose proof (N.div_mod' (c / 16 / 16) 16) as H3.
  assert (c / 16 / 16 / 16 < 16) as H4.
  { rewrite !N.Div0.div_div. apply N.Div0.div_lt_upper_bound. exact Hc. }
  rewrite (N.mod_small (c / 16 / 16 / 16) 16) by exact H4.
  set (m0 := c mod 16) in *. set (m1 := (c / 16) mod 16) in *.
  set (m2 := (c / 16 / 16) mod 16) in *.
  set (q3 := c / 16 / 16 / 16) in *.
  set (q1 := c / 16) in *. 
  lia.
Qed.

Lemma read_unicode_escape (c : N) (tail : jsstring) :
  c < 0x10000 →
  read_units (UnicodeEscape c ++ tail) = prepend c (read_units tail).
Proof.
  intros Hc. unfold UnicodeEscape.
  cbn [app read_units]. change (0x5C =? 0x22) with false.
  change (0x5C =? 0x5C) with true. change (0x75 =? 0x75) with true.
  cbv iota.
  rewrite !unhex_hex_digit by (apply N.mod_lt; discriminate).
  by rewrite hex_digits_value.
Qed.

Lemma surrogate_bounds (c : N) :
  is_lead c || is_trail c = true → 0xD800 <= c ∧ c < 0x10000.
Proof.
  unfold is_lead, is_trail.
  rewrite orb_true_iff, !andb_true_iff, !N.leb_le. lia.
Qed.

Lemma read_raw (c : N) (tail : jsstring) :
  (c =? 0x22) = false → (c =? 0x5C) = false → (c <? 0x20) = false →
  read_units (c :: tail) = prepend c (read_units tail).
Proof. intros H1 H2 H3. cbn [read_units]. by rewrite H1, H2, H3. Qed.

Lemma read_raw_surrogate (c : N) (tail : jsstring) :
  is_lead c || is_trail c = true →
  read_units (c :: tail) = prepend c (read_units tail).
Proof.
  intros H. apply surrogate_bounds in H as [H1 H2].
  apply read_raw; [apply N.eqb_neq | apply N.eqb_neq | apply N.ltb_ge]; lia.
Qed.

(** Reading back what [QuoteJSONString] wrote gives the string itself. *)
Lemma read_units_quote (s rest : jsstring) :
  read_units (quote_units s ++ 0x22 :: rest) = Some (s, rest).
Proof.
  remember (length s) as n eqn:Hn. revert s Hn.
  induction n as [n IH] using lt_wf_ind. intros s Hn.
  destruct s as [|c r]; [reflexivity|].
  assert (∀ t, (length t < n)%nat →
            read_units (quote_units t ++ 0x22 :: rest) = Some (t, rest))
    as IH' by (intros t Ht; by apply (IH (length t))).
  assert (length r < n)%nat as Hr by (subst n; simpl; lia).
  cbn [quote_units].
  repeat match goal with
    | |- context [if ?c =? ?k then _ else _] =>
      destruct (c =? k) eqn:?;
        [ match goal with H : (_ =? _) = true |- _ =>
            apply N.eqb_eq in H; subst c end;
          cbn [app read_units]; simpl; rewrite (IH' r Hr); reflexivity |]
    end.
  destruct (c <? 0x20) eqn:Hctl.
  { rewrite <- app_assoc, read_unicode_escape, (IH' r Hr); [reflexivity|].
    apply N.ltb_lt in Hctl. lia. }
  destruct (is_lead c) eqn:Hlead.
  - assert (c < 0x10000) as Hc
      by (apply surrogate_bounds; by rewrite Hlead).
    destruct r as [|d r'].
    + rewrite read_unicode_escape by exact Hc. reflexivity.
    + destruct (is_trail d) eqn:Htrail.
      * cbn [app].
        rewrite read_raw_surrogate by (by rewrite Hlead).
        rewrite read_raw_surrogate by (rewrite Htrail; apply orb_true_r).
        rewrite IH'; [reflexivity|]. subst n. simpl. lia.
      * rewrite <- app_assoc, read_unicode_escape, (IH' _ Hr) by exact Hc.
        reflexivity.
  - destruct (is_trail c) eqn:Htrail.
    + rewrite <- app_assoc, read_unicode_escape, (IH' r Hr); [reflexivity|].
      apply surrogate_bounds. rewrite Htrail. apply orb_true_r.
    + cbn [app]. rewrite read_raw by assumption.
      by rewrite (IH' r Hr).
Qed.

Lemma read_string_quote (s rest : jsstring) :
  read_string (QuoteJSONString s ++ rest) = Some (s, rest).
Proof.
  unfold QuoteJSONString. cbn [app read_string].
  change (0x22 =? 0x22) with true. cbv iota.
  rewrite <- app_assoc. apply read_units_quote.
Qed.


Lemma read_members_join (props : list (jsstring * jsstring)) (fuel : nat) :
  props ≠ [] → (length props ≤ fuel)%nat →
  read_members fuel (join [0x2C] (member_text <$> props) ++ [0x7D])
  = Some props.
Proof.
  revert fuel. induction props as [|[k v] rest IH]; [done|].
  intros fuel _ Hfuel. destruct fuel as [|fuel]; [simpl in Hfuel; lia|].
  destruct rest as [|kv rest].
  - cbn [fmap list_fmap join read_members]. unfold member_text.
    cbn [fst snd]. rewrite <- !app_assoc, read_string_quote.
    cbn [app]. change (0x3A =? 0x3A) with true. cbv iota.
    rewrite read_string_quote. reflexivity.
  - change (join [0x2C] (member_text <$> (k, v) :: kv :: rest))
      with (member_text (k, v) ++ [0x2C]
            ++ join [0x2C] (member_text <$> kv :: rest)).
    cbn [read_members]. unfold member_text at 1. cbn [fst snd].
    rewrite <- !app_assoc, read_string_quote.
    cbn [app]. change (0x3A =? 0x3A) with true. cbv iota.
    rewrite read_string_quote.
    change (0x2C =? 0x7D) with false. change (0x2C =? 0x2C) with true.
    cbv iota. rewrite IH; [reflexivity|done|]. simpl in *. lia.
Qed.

Lemma join_length (sep : jsstring) (parts : list jsstring) :
  Forall (λ p, (1 ≤ length p)%nat) parts →
  (length parts ≤ length (join sep parts))%nat.
Proof.
  induction 1 as [|p parts Hp _ IH]; [simpl; lia|].
  destruct parts as [|q parts]; [simpl in *; lia|].
  change (join sep (p :: q :: parts)) with (p ++ sep ++ join sep (q :: parts)).
  rewrite !length_app. simpl in *. lia.
Qed.

Lemma member_text_shape (kv : jsstring * jsstring) :
  ∃ x y t, member_text kv = x :: y :: t.
Proof.
  unfold member_text, QuoteJSONString. destruct (quote_units kv.1); simpl; eauto.
Qed.

Lemma read_object_text (text : jsstring) :
  (∃ x y t, text = x :: y :: t) →
  read_object ([0x7B] ++ text) = read_members (length text) text.
Proof. intros (x & y & t & ->). reflexivity. Qed.

(** [read_object] inverts [JSON_stringify]. *)
Lemma read_object_stringify (props : list (jsstring * jsstring)) :
  read_object (JSON_stringify props) = Some props.
Proof.
  unfold JSON_stringify. fold member_text.
  destruct props as [|kv rest]; [reflexivity|].
  rewrite read_object_text.
  - apply read_members_join; [done|].
    rewrite length_app.
    assert (Forall (λ p, (1 ≤ length p)%nat) (member_text <$> kv :: rest))
      as HF.
    { apply Forall_fmap, Forall_forall. intros p _. unfold compose.
      destruct (member_text_shape p) as (x & y & t & ->). simpl. lia. }
    apply (join_length [0x2C]) in HF. rewrite length_fmap in HF.
    etrans; [exact HF|]. apply Nat.le_add_r.
  - destruct rest as [|kv' rest].
    + cbn [fmap list_fmap join].
      destruct (member_text_shape kv) as (x & y & t & ->). simpl. eauto.
    + change (join [0x2C] (member_text <$> kv :: kv' :: rest))
        with (member_text kv ++ [0x2C]
              ++ join [0x2C] (member_text <$> kv' :: rest)).
      destruct (member_text_shape kv) as (x & y & t & ->). simpl. eauto.
Qed.

(** X11: read back by the JSON grammar, the request body is an object with
    exactly two members, the address as it was typed and [building_type]
    equal to house, whatever characters the address holds; two addresses
    never give the same body. *)
Theorem body_reads_back (a : jsstring) :
  read_object (body (request_init a))
  = Some [(lit "address", a); (lit "building_type", lit "house")]
  ∧ (∀ b, body (request_init a) = body (request_init b) → a = b).
Proof.
  split; [apply read_object_stringify|].
  intros b Hb.
  pose proof (read_object_stringify (payload a)) as Ha.
  pose proof (read_object_stringify (payload b)) as Hb'.
  change (JSON_stringify (payload a)) with (body (request_init a)) in Ha.
  change (JSON_stringify (payload b)) with (body (request_init b)) in Hb'.
  rewrite Hb, Hb' in Ha. by injection Ha.
Qed.
Lemma body_reads_back_witness :
  body (request_init (lit "Suwon")) = body (request_init (lit "Suwon"))
  ∧ lit "Suwon" = lit "Suwon".
Proof.
  split; [reflexivity|].
  destruct (body_reads_back (lit "Suwon")) as [_ H].
  apply (H (lit "Suwon")). reflexivity.
Defined.

End JSONFacts.

Section WellFormed.
Import JS HomePage JSONText.
#[local] Open Scope N_scope.







End WellFormed.

(** ** The page in use, and what it renders *)

Section SessionFacts.
Import JS HomePage Api Session View.

Lemma handleSubmit_frame net w :
  handleSubmit net w
  = ((submit net (address w) (loading w)).1,
     {| address := address w;
        loading := loading (submit net (address w) (loading w)).2;
        log := log w ++ log (submit net (address w) (loading w)).2 |}).
Proof.
  destruct w as [a busy l].
  unfold submit, mounted, handleSubmit, try_catch_finally, fetch,
    response_json, get_property, mbind, Eff_bind, mret, Eff_ret; simpl.
  destruct (truthy (trim a)); simpl.
  - destruct (net api_url (request_init a)) as [|[[] [[]|]]]; simpl;
      rewrite <- !app_assoc; reflexivity.
  - unfold alert, emit. simpl. rewrite <- !app_assoc. reflexivity.
Qed.

Lemma loading_after_submit net a busy :
  loading (submit net a busy).2 = if truthy (trim a) then false else busy.
Proof.
  destruct (truthy (trim a)) eqn:Ht.
  - destruct (net api_url (request_init a)) as [|r] eqn:Hn.
    + by rewrite (submit_rejected net a busy Ht Hn).
    + destruct (ok r) eqn:Hok.
      * by rewrite (submit_ok net a busy r Ht Hn Hok).
      * by rewrite (submit_not_ok net a busy r Ht Hn Hok).
  - by rewrite (submit_blank net a busy Ht).
Qed.

Lemma fetches_app (l1 l2 : list event) :
  fetches (l1 ++ l2) = fetches l1 ++ fetches l2.
Proof. unfold fetches. apply omap_app. Qed.

Lemma session_from (w : world) (actions : list action) :
  address (foldl act w actions) = last_edit (address w) actions
  ∧ (loading w = false → loading (foldl act w actions) = false)
  ∧ fetches (log (foldl act w actions))
    = fetches (log w)
      ++ ((λ a, (api_url, request_init a)) <$> submitted (address w) actions).
Proof.
  revert w. induction actions as [|[v|net] rest IH]; intros w.
  - simpl. by rewrite app_nil_r.
  - destruct (IH (setAddress v w)) as (H1 & H2 & H3). simpl. by split_and!.
  - destruct (IH (handleSubmit net w).2) as (H1 & H2 & H3).
    rewrite handleSubmit_frame in H1, H2, H3. simpl in H1, H2, H3.
    cbn [foldl act]. rewrite handleSubmit_frame. cbn [snd].
    split_and!.
    + exact H1.
    + intros Hw. apply H2. rewrite loading_after_submit, Hw.
      by destruct (truthy (trim (address w))).
    + rewrite H3, fetches_app, fetches_of_submit, <- app_assoc. f_equal.
      simpl. rewrite fmap_app. f_equal. by destruct (truthy (trim (address w))).
Qed.

(** X13: from the mounted page, after any sequence of edits and finished
    submissions, the loading flag is false, the input holds the value last
    typed, and the requests sent are, in order, one for each submission made
    while the input held a character that is not white space, carrying the
    address of that moment; what the server answered never changes what is
    sent next. *)
Theorem session_requests (actions : list action) :
  loading (session actions) = false
  ∧ address (session actions) = last_edit [] actions
  ∧ fetches (log (session actions))
    = (λ a, (api_url, request_init a)) <$> submitted [] actions.
Proof.
  destruct (session_from initial actions) as (H1 & H2 & H3).
  split_and!; [by apply H2 | exact H1 | exact H3].
Qed.

Lemma find_all_element tag t ps cs :
  find_all tag (Element t ps cs)
  = (if decide (t = tag) then [Element t ps cs] else [])
    ++ find_all tag (Fragment cs).
Proof. reflexivity. Qed.

Lemma find_all_fragment_cons tag c cs :
  find_all tag (Fragment (c :: cs))
  = find_all tag c ++ find_all tag (Fragment cs).
Proof. reflexivity. Qed.

Lemma items_found (tag : string) (pick : node → list node)
  (features : list jsstring) (from : nat) :
  (∀ f i, find_all tag (feature_item f i) = pick (feature_item f i)) →
  find_all tag (Fragment (map_with_index feature_item from features))
  = mjoin (pick <$> map_with_index feature_item from features).
Proof.
  intros Hpick. revert from.
  induction features as [|f rest IH]; intros from; [reflexivity|].
  cbn [map_with_index]. rewrite find_all_fragment_cons, IH, Hpick.
  reflexivity.
Qed.

Lemma map_with_index_keys (features : list jsstring) (from : nat) :
  prop_of "key" <$> map_with_index feature_item from features
  = (λ i, Some (PIndex i)) <$> seq from (length features).
Proof.
  revert from. induction features as [|f rest IH]; intros from; [done|].
  simpl. f_equal. apply IH.
Qed.

Lemma map_with_index_texts (features : list jsstring) (from : nat) :
  text_of <$> map_with_index feature_item from features = features.
Proof.
  revert from. induction features as [|f rest IH]; intros from; [done|].
  simpl. f_equal; [by rewrite !app_nil_r | apply IH].
Qed.

Lemma mjoin_singletons {A} (l : list A) : mjoin ((λ x, [x]) <$> l) = l.
Proof. induction l; simpl; by f_equal. Qed.

(** X14: a pricing card renders one list item for each feature, in the
    order given and with its text, each with a check mark, keyed 0, 1, 2 and
    so on, so that no two items share a key; an empty list of features gives
    no item. *)
Theorem pricing_card_lists_features name price features buttonText highlighted :
  let card := PricingCard name price features buttonText highlighted in
  prop_of "key" <$> find_all "li" card
  = (λ i, Some (PIndex i)) <$> seq 0 (length features)
  ∧ text_of <$> find_all "li" card = features
  ∧ length (find_all "Check" card) = length features
  ∧ NoDup (prop_of "key" <$> find_all "li" card).
Proof.
  intros card.
  assert (find_all "li" card = map_with_index feature_item 0 features) as Hli.
  { unfold card, PricingCard.
    rewrite !find_all_element, !find_all_fragment_cons, !find_all_element.
    rewrite (items_found "li" (λ n, [n])) by reflexivity.
    simpl. rewrite app_nil_r. apply mjoin_singletons. }
  assert (length (find_all "Check" card) = length features) as Hcheck.
  { unfold card, PricingCard.
    rewrite !find_all_element, !find_all_fragment_cons, !find_all_element.
    rewrite (items_found "Check"
               (λ n, [Element "Check"
                        [("className", PString (lit "w-5 h-5 flex-shrink-0"))]
                        []])) by reflexivity.
    simpl. rewrite app_nil_r. clear.
    generalize 0%nat. induction features as [|f rest IH]; intros from; [done|].
    simpl. f_equal. apply IH. }
  rewrite Hli, map_with_index_keys, map_with_index_texts.
  split_and!; try done.
  apply NoDup_fmap_2; [|apply NoDup_seq].
  intros i j [= ->]. reflexivity.
Qed.

(** X15: whenever the request is sent, its failure logged or the
    navigation made, the form as rendered for the state of that moment has
    its input and its button disabled and shows the text of the spinner;
    after a run that started with the form enabled, the form is rendered
    enabled again, with the address still in the input. *)
Theorem form_locked_while_request_runs net a busy :
  (∀ ev flag,
     (ev, flag) ∈ flags_seen busy (log (submit net a busy).2) →
     of_request ev = true →
     prop_of "disabled" <$> find_all "input" (search_form a flag)
     = [Some (PBool true)]
     ∧ prop_of "disabled" <$> find_all "button" (search_form a flag)
       = [Some (PBool true)]
     ∧ text_of (search_form a flag) = lit "분석 중...")
  ∧ (busy = false →
     search_form (address (submit net a busy).2) (loading (submit net a busy).2)
     = search_form a false
     ∧ prop_of "value" <$> find_all "input" (search_form a false)
       = [Some (PString a)]
     ∧ prop_of "disabled" <$> find_all "button" (search_form a false)
       = [Some (PBool false)]
     ∧ text_of (search_form a false) = lit "분석 시작").
Proof.
  split.
  - intros ev flag Hin Hreq.
    assert (flag = true) as ->; [|by split_and!].
    pose proof (request_flags net a busy) as Hall.
    rewrite forallb_forall in Hall.
    apply list_elem_of_In in Hin. specialize (Hall _ Hin). simpl in Hall.
    rewrite Hreq in Hall. exact Hall.
  - intros ->. rewrite loading_after_submit.
    rewrite address_after_submit.
    split_and!; try reflexivity. by destruct (truthy (trim a)).
Qed.
Lemma form_locked_while_request_runs_witness :
  search_form (address (submit (λ _ _, Rejected) (lit "a") false).2)
    (loading (submit (λ _ _, Rejected) (lit "a") false).2)
  = search_form (lit "a") false.
Proof.
  destruct (form_locked_while_request_runs (λ _ _, Rejected) (lit "a") false)
    as [_ H].
  destruct (H eq_refl) as [H' _]. exact H'.
Defined.

End SessionFacts.
